(** * Receptive-field arithmetic of [torch_receptive_field/main.py]

    A shallow embedding of [get_rf_data] and of the helpers it calls, followed
    by the properties of the propagation pass and of the depth collapse.

    Modelling conventions.
    - Python [int] is [Z]; a Python [float] is an exact rational [Q] kept in
      lowest terms ([Qred]), so that equal numbers are equal terms.  Every
      float the program produces from integer layer parameters is an integer
      or a half-integer quotient of small integers.
    - A raised exception is the [Raise] case of [result].
    - A module tree is a finite tree of distinct module objects; the
      registration order of [_modules] is the order of the child list. *)

From Stdlib Require Import ZArith QArith Qround Lia Ascii String.
From stdpp Require Import base list strings sorting.

Local Open Scope string_scope.
Local Open Scope Z_scope.

(** ** Exceptions *)

Inductive exn := AssertionError | ZeroDivisionError.

Inductive result (A : Type) :=
| Ok (a : A)
| Raise (e : exn).
Arguments Ok {A} a.
Arguments Raise {A} e.

(** An exception raised in [m] propagates; [x ← m; k] is stdpp's notation
    for [mbind (fun x => k) m]. *)
#[export] Instance result_bind : MBind result := fun A B f m =>
  match m with
  | Ok a => f a
  | Raise e => Raise e
  end.

(** ** The layer tree handed over by torch *)

(** [kernel_size], [stride] and [padding] are either one integer or a
    per-axis tuple. *)
Inductive param :=
| Scalar (v : Z)
| Pair (v0 v1 : Z).

(** What the [isinstance] tests of [get_rf_data] can tell apart. *)
Inductive layer_class :=
| Sequential
| Conv2d (kernel_size stride padding : param)
| MaxPool2d (kernel_size stride padding : param)
| OtherLayer.

#[local] Set Warnings "-register-all".
Inductive Module := mkModule {
  class_name : string;
  cls : layer_class;
  _modules : list (string * Module)
}.

Definition children (m : Module) : list Module := map snd (_modules m).

(** [p[0] if isinstance(p, tuple) else p] *)
Definition first_axis (p : param) : Z :=
  match p with
  | Scalar v => v
  | Pair v0 _ => v0
  end.

(** ** [LayerRFData] *)

Definition values_t : Type :=
  option (Z * Z) * option (Q * Q) * option Z * option Z.

Record LayerRFData := mkLayerRFData {
  depth : Z;
  name : string;
  type : string;
  output_shape : option (Z * Z);
  origin : option (Q * Q);
  jump : option Z;
  receptive_field : option Z
}.

Definition values (x : LayerRFData) : values_t :=
  (output_shape x, origin x, jump x, receptive_field x).

Definition replace_values (x : LayerRFData) (v : values_t) : LayerRFData :=
  let '(v0, v1, v2, v3) := v in
  {| depth := depth x; name := name x; type := type x;
     output_shape := v0; origin := v1; jump := v2; receptive_field := v3 |}.

(** ** [iter_module]: torch's [named_modules], root first, pre-order *)

Definition join_prefix (prefix name : string) : string :=
  (prefix ++ (if String.eqb prefix "" then "" else ".") ++ name)%string.

Fixpoint named_modules (prefix : string) (m : Module) : list (string * Module) :=
  (prefix, m) ::
  (fix over (cs : list (string * Module)) : list (string * Module) :=
     match cs with
     | [] => []
     | (name, c) :: cs' => (named_modules (join_prefix prefix name) c ++ over cs')%list
     end) (_modules m).

Definition iter_module (module : Module) : list (string * Module) :=
  named_modules "" module.

Definition get_layer_names (module : Module) : list string :=
  map fst (iter_module module).

Definition is_custom_module (module : Module) : bool :=
  (0 <? Z.of_nat (length (children module))).

(** ** String helpers: [str.split(".")] and [str * int] *)

Fixpoint split_from (cur s : string) : list string :=
  match s with
  | EmptyString => [cur]
  | String c s' =>
      if Ascii.eqb c "."%char then cur :: split_from "" s'
      else split_from (cur ++ String c "")%string s'
  end.

Definition split_dot (s : string) : list string := split_from "" s.

Fixpoint count_dots (s : string) : nat :=
  match s with
  | EmptyString => O
  | String c s' => (if Ascii.eqb c "."%char then 1 else 0) + count_dots s'
  end%nat.

Fixpoint str_repeat (s : string) (n : nat) : string :=
  match n with
  | O => ""
  | S n' => (s ++ str_repeat s n')%string
  end.

Definition depth_of (layer_name_dotted : string) : Z :=
  if String.eqb layer_name_dotted "" then 0
  else Z.of_nat (length (split_dot layer_name_dotted)).

Definition label_of (layer_name_dotted : string) : string :=
  let depth := depth_of layer_name_dotted in
  if depth =? 0 then ""
  else if depth =? 1 then ("├─ " ++ layer_name_dotted)%string
  else (str_repeat "|    " (Z.to_nat (depth - 1))
        ++ "└─ " ++ List.last (split_dot layer_name_dotted) "")%string.

(** ** The propagation pass (first loop of [get_rf_data]) *)

Record registers := mkRegisters {
  nx : Z; ny : Z;
  ox : Q; oy : Q;
  j : Z; r : Z
}.

Definition init_registers (input_shape : Z * Z) : registers :=
  {| nx := fst input_shape; ny := snd input_shape;
     ox := 1 # 2; oy := 1 # 2; j := 1; r := 1 |}.

(** [int(x)] on a float: truncation towards zero. *)
Definition int_of (x : Q) : Z :=
  if Qle_bool 0 x then Qfloor x else Qceiling x.

(** [((n + 2 * p - k) / s) + 1], true division. *)
Definition out_dim (n p k s : Z) : result Q :=
  if s =? 0 then Raise ZeroDivisionError
  else Ok (Qred (inject_Z (n + 2 * p - k) / inject_Z s + 1)).

(** [o + (((k - 1) / 2) - p) * j] *)
Definition shift_origin (o : Q) (k p j : Z) : Q :=
  Qred (o + (inject_Z (k - 1) / 2 - inject_Z p) * inject_Z j).

(** The parameters read at lines 73-75, for a layer that reaches them. *)
Definition spatial_params (layer : Module) : option (Z * Z * Z) :=
  match cls layer with
  | Conv2d k s p | MaxPool2d k s p =>
      Some (first_axis p, first_axis s, first_axis k)
  | _ => None
  end.

Definition is_sequential (m : Module) : bool :=
  match cls m with Sequential => true | _ => false end.

Definition is_conv2d (m : Module) : bool :=
  match cls m with Conv2d _ _ _ => true | _ => false end.

Definition is_container (layer : Module) : bool :=
  is_sequential layer || is_custom_module layer.

Definition record_of (path : string) (layer : Module) (st : registers)
  : LayerRFData :=
  {| depth := depth_of path; name := label_of path; type := class_name layer;
     output_shape := Some (nx st, ny st); origin := Some (ox st, oy st);
     jump := Some (j st); receptive_field := Some (r st) |}.

Definition container_record (path : string) (layer : Module) : LayerRFData :=
  {| depth := depth_of path; name := label_of path; type := class_name layer;
     output_shape := None; origin := None; jump := None;
     receptive_field := None |}.

(** Lines 73-90: the register update of a convolution or max-pool. *)
Definition update (module : Module) (p s k : Z) (st : registers)
  : result registers :=
  fx ← out_dim (nx st) p k s;
  fy ← out_dim (ny st) p k s;
  n ← (if is_conv2d module then
          if Qeq_bool (inject_Z (int_of fx)) fx
             && Qeq_bool (inject_Z (int_of fy)) fy
          then Ok (int_of fx, int_of fy)
          else Raise AssertionError
        else Ok (Qfloor fx, Qfloor fy));
  Ok {| nx := fst n; ny := snd n;
        ox := shift_origin (ox st) k p (j st);
        oy := shift_origin (oy st) k p (j st);
        j := j st * s;
        r := r st + (k - 1) * j st |}.

(** One iteration of the loop at line 57. *)
Definition visit (module : Module) (st : registers) (entry : string * Module)
  : result (registers * LayerRFData) :=
  let '(layer_name_dotted, layer) := entry in
  if is_container layer then Ok (st, container_record layer_name_dotted layer)
  else
    match spatial_params layer with
    | Some (p, s, k) =>
        st' ← update module p s k st;
        Ok (st', record_of layer_name_dotted layer st')
    | None => Ok (st, record_of layer_name_dotted layer st)
    end.

Fixpoint run (module : Module) (st : registers) (entries : list (string * Module))
  : result (list LayerRFData) :=
  match entries with
  | [] => Ok []
  | e :: rest =>
      sx ← visit module st e;
      data ← run module (fst sx) rest;
      Ok (snd sx :: data)
  end.

Definition propagate (module : Module) (input_shape : Z * Z)
  : result (list LayerRFData) :=
  run module (init_registers input_shape) (iter_module module).

(** ** The depth collapse (second loop of [get_rf_data]) *)

(** The [while] loop at line 100, started at [new_values] on the records
    that follow index [i]. *)
Fixpoint scan (rest : list LayerRFData) (max_depth : Z) (new_values : values_t)
  : values_t :=
  match rest with
  | y :: rest' =>
      if max_depth <? depth y then scan rest' max_depth (values y)
      else new_values
  | [] => new_values
  end.

(** The records of [data] are distinct objects and the loop over index [i]
    writes only to [data[i]], which the scans started later never read, so
    the in-place [replace_values] is a functional update of the element. *)
Fixpoint collapse (data : list LayerRFData) (max_depth : Z) : list LayerRFData :=
  match data with
  | [] => []
  | x :: rest =>
      let x' := if depth x =? max_depth
                then replace_values x (scan rest max_depth (values x))
                else x in
      if depth x' <=? max_depth then x' :: collapse rest max_depth
      else collapse rest max_depth
  end.

Definition get_rf_data (module : Module) (input_shape : Z * Z) (max_depth : Z)
  : result (list LayerRFData) :=
  data ← propagate module input_shape;
  Ok (collapse data max_depth).

Definition default_max_depth : Z := 99999.

(** ** Vocabulary of the statements *)

Definition null_values : values_t := (None, None, None, None).

Definition register_values (st : registers) : values_t :=
  (Some (nx st, ny st), Some (ox st, oy st), Some (j st), Some (r st)).

(** A record "carries scalars" when none of its four value fields is null. *)
Definition non_null (x : LayerRFData) : bool :=
  match values x with
  | (Some _, Some _, Some _, Some _) => true
  | _ => false
  end.

(** The (jump, receptive field) pair of a value tuple without null field. *)
Definition scalars_of (v : values_t) : option (Z * Z) :=
  match v with
  | (Some _, Some _, Some jv, Some rv) => Some (jv, rv)
  | _ => None
  end.

Definition le_scalars (a b : Z * Z) : Prop := a.1 <= b.1 ∧ a.2 <= b.2.

(** "Every convolution/pool layer has stride >= 1 and kernel >= 1", on the
    axis the program reads. *)
Definition valid_layer (layer : Module) : Prop :=
  match cls layer with
  | Conv2d k s _ | MaxPool2d k s _ => 1 <= first_axis s ∧ 1 <= first_axis k
  | _ => True
  end.



(** No convolution or max-pool anywhere in the tree. *)
Definition no_spatial (module : Module) : Prop :=
  Forall (λ e, spatial_params e.2 = None) (iter_module module).

(** The tree in which every per-axis parameter is replaced by the single
    integer found on its first axis. *)
Definition symmetrize_class (c : layer_class) : layer_class :=
  match c with
  | Conv2d k s p =>
      Conv2d (Scalar (first_axis k)) (Scalar (first_axis s)) (Scalar (first_axis p))
  | MaxPool2d k s p =>
      MaxPool2d (Scalar (first_axis k)) (Scalar (first_axis s)) (Scalar (first_axis p))
  | Sequential => Sequential
  | OtherLayer => OtherLayer
  end.

Fixpoint symmetrize (m : Module) : Module :=
  mkModule (class_name m) (symmetrize_class (cls m))
    (map (λ nc, (nc.1, symmetrize nc.2)) (_modules m)).

(** ** Sample trees and their records *)

Definition leaf (cn : string) (c : layer_class) : Module := mkModule cn c [].
Definition conv (k s p : Z) : Module :=
  leaf "Conv2d" (Conv2d (Pair k k) (Pair s s) (Pair p p)).
Definition sequential (ms : list (string * Module)) : Module :=
  mkModule "Sequential" Sequential ms.

Definition one_conv : Module := sequential [("0", conv 3 1 0)].
Definition two_convs : Module := sequential [("0", conv 3 2 1); ("1", conv 3 2 1)].

Definition one_conv_record : LayerRFData :=
  mkLayerRFData 1 "├─ 0" "Conv2d" (Some (3, 3)) (Some (3 # 2, 3 # 2)%Q)
    (Some 1) (Some 3).

Definition two_convs_records : list LayerRFData :=
  [ container_record "" two_convs;
    mkLayerRFData 1 "├─ 0" "Conv2d" (Some (4, 4)) (Some (1 # 2, 1 # 2)%Q)
      (Some 2) (Some 3);
    mkLayerRFData 1 "├─ 1" "Conv2d" (Some (2, 2)) (Some (1 # 2, 1 # 2)%Q)
      (Some 4) (Some 7) ].

Definition relu : Module := leaf "ReLU" OtherLayer.
Definition relu_only : Module := sequential [("0", relu)].

Definition lopsided_conv : Module :=
  leaf "Conv2d" (Conv2d (Pair 3 5) (Pair 2 1) (Pair 1 0)).


(** ** Vocabulary of the further properties *)

(** Names as [add_module] accepts them: not empty and without ".". *)
Definition valid_name (nm : string) : Prop :=
  nm ≠ "" ∧ count_dots nm = 0%nat.

Fixpoint valid_names (m : Module) : Prop :=
  (fix over (cs : list (string * Module)) : Prop :=
     match cs with
     | [] => True
     | (nm, c) :: cs' => valid_name nm ∧ valid_names c ∧ over cs'
     end) (_modules m).

(** The nesting level of every node, in the order of [named_modules]. *)
Fixpoint levels (lvl : nat) (m : Module) : list nat :=
  lvl ::
  (fix over (cs : list (string * Module)) : list nat :=
     match cs with
     | [] => []
     | (_, c) :: cs' => (levels (S lvl) c ++ over cs')%list
     end) (_modules m).

(** The number of nodes of a tree. *)
Fixpoint size (m : Module) : nat :=
  S ((fix over (cs : list (string * Module)) : nat :=
        match cs with
        | [] => O
        | (_, c) :: cs' => (size c + over cs')%nat
        end) (_modules m)).

(** The stride and kernel an entry contributes to the registers: those of a
    convolution or max-pool leaf, and 1 for a container or any other layer. *)
Definition layer_stride (e : string * Module) : Z :=
  if is_container e.2 then 1
  else match spatial_params e.2 with Some (_, s, _) => s | None => 1 end.

Definition layer_kernel (e : string * Module) : Z :=
  if is_container e.2 then 1
  else match spatial_params e.2 with Some (_, _, k) => k | None => 1 end.


Definition stride_product (es : list (string * Module)) : Z :=
  foldr (λ e acc, layer_stride e * acc) 1 es.

(** [Σ_i (k_i - 1) * Π_{m < i} s_m] over the entries [es]. *)
Definition rf_sum (es : list (string * Module)) : Z :=
  foldr Z.add 0
    (imap (λ i e, (layer_kernel e - 1) * stride_product (take i es)) es).

(** The registers when the loop at line 57 has consumed [es]. *)
Fixpoint registers_after (module : Module) (st : registers)
    (es : list (string * Module)) : result registers :=
  match es with
  | [] => Ok st
  | e :: rest =>
      sx ← visit module st e;
      registers_after module sx.1 rest
  end.

(** The level a prefix stands for: 0 for the empty prefix, otherwise its
    number of segments. *)
Definition prefix_level (prefix : string) (lvl : nat) : Prop :=
  (prefix = "" ∧ lvl = O) ∨ (prefix ≠ "" ∧ lvl = S (count_dots prefix)).

Definition nested_sample : Module :=
  sequential [("features", sequential [("0", conv 3 1 1); ("1", relu)]);
              ("head", conv 1 1 0)].


(** Value fields all null, or all present with equal origin coordinates and
    a square shape when the input is square. *)
Definition registers_ok (input_shape : Z * Z) (v : values_t) : Prop :=
  v = null_values
  ∨ ∃ n o jv rv, v = (Some n, Some (o, o), Some jv, Some rv)
      ∧ (input_shape.1 = input_shape.2 -> n.1 = n.2).

(** The route to every node (the names from the root down), in the order of
    [named_modules]. *)
Fixpoint routes (pre : list string) (m : Module) : list (list string) :=
  pre ::
  (fix over (cs : list (string * Module)) : list (list string) :=
     match cs with
     | [] => []
     | (nm, c) :: cs' => (routes (pre ++ [nm]) c ++ over cs')%list
     end) (_modules m).

(** [_modules] is a dictionary: the children of one node have distinct
    names. *)
Fixpoint distinct_siblings (m : Module) : Prop :=
  NoDup (map fst (_modules m))
  ∧ (fix over (cs : list (string * Module)) : Prop :=
       match cs with
       | [] => True
       | (_, c) :: cs' => distinct_siblings c ∧ over cs'
       end) (_modules m).

(** The segments of a dotted path; the root's empty path has none. *)
Definition segments (path : string) : list string :=
  if String.eqb path "" then [] else split_dot path.

(** Depths as a pre-order traversal produces them: from one entry to the
    next the depth grows by at most one. *)
Fixpoint gentle_depths (ds : list Z) : Prop :=
  match ds with
  | a :: (b :: _) as rest => b <= a + 1 ∧ gentle_depths rest
  | _ => True
  end.


(** ** Records and registers: basic facts *)

Lemma replace_values_values x : replace_values x (values x) = x.
Proof. by destruct x. Qed.

Lemma values_replace_values x v : values (replace_values x v) = v.
Proof. by destruct v as [[[? ?] ?] ?]. Qed.

Lemma depth_replace_values x v : depth (replace_values x v) = depth x.
Proof. by destruct v as [[[? ?] ?] ?]. Qed.

Lemma values_record_of path layer st :
  values (record_of path layer st) = register_values st.
Proof. done. Qed.

Lemma values_container_record path layer :
  values (container_record path layer) = null_values.
Proof. done. Qed.

(** ** The output dimension *)


Lemma out_dim_zero n p k : out_dim n p k 0 = Raise ZeroDivisionError.
Proof. done. Qed.





(** ** One spatial layer *)



(** What a successful [update] leaves in the registers, whatever the mode. *)
Lemma update_registers module p s k st st' :
  update module p s k st = Ok st' ->
  r st' = r st + (k - 1) * j st ∧
  ox st' = shift_origin (ox st) k p (j st) ∧
  oy st' = shift_origin (oy st) k p (j st) ∧
  j st' = j st * s.
Proof.
  unfold update, out_dim. destruct (s =? 0); [done|]. cbn.
  destruct (is_conv2d module); cbn.
  - destruct (_ && _); cbn; [|done]. by intros [= <-].
  - by intros [= <-].
Qed.




(** ** A root holding one convolution *)

(** C2, as amended.  A root holding one convolution (kernel 3, stride 1,
    padding 0) on a (5,5) input yields the root's null record and exactly one
    record with scalars: output shape (3,3), jump 1, receptive field 3 and
    origin (1.5, 1.5), that is 0.5 + ((3 - 1)/2 - 0) * 1 on each axis. *)
Theorem C2_one_conv_record :
  get_rf_data one_conv (5, 5) default_max_depth
  = Ok [container_record "" one_conv; one_conv_record]
  ∧ List.filter non_null [container_record "" one_conv; one_conv_record]
    = [one_conv_record]
  ∧ output_shape one_conv_record = Some (3, 3)
  ∧ jump one_conv_record = Some 1
  ∧ receptive_field one_conv_record = Some 3
  ∧ origin one_conv_record = Some (3 # 2, 3 # 2)%Q.
Proof. repeat split; by vm_compute. Qed.

(** C2, as stated, fails: the only record with scalars has origin 1.5, not
    1.0, on both axes. *)
Lemma C2_counterexample :
  ¬ ∃ data x a b,
      get_rf_data one_conv (5, 5) default_max_depth = Ok data
      ∧ List.filter non_null data = [x]
      ∧ output_shape x = Some (3, 3)
      ∧ jump x = Some 1
      ∧ receptive_field x = Some 3
      ∧ origin x = Some (a, b) ∧ (a == 1)%Q ∧ (b == 1)%Q.
Proof.
  intros (data & x & a & b & Hrun & Hf & _ & _ & _ & Ho & Ha & _).
  vm_compute in Hrun. injection Hrun as <-.
  vm_compute in Hf. injection Hf as <-.
  injection Ho as <- <-. by vm_compute in Ha.
Qed.

(** ** A bare convolution as root *)




(** ** The traversal: paths and depths *)

Lemma Module_tree_ind (P : Module -> Prop) :
  (∀ cn c ms, Forall (λ nc, P nc.2) ms -> P (mkModule cn c ms)) ->
  ∀ m, P m.
Proof.
  intros step. fix IH 1. intros [cn c ms]. apply step.
  induction ms as [|[nm m'] ms IHms]; constructor; [apply IH | apply IHms].
Qed.

Lemma split_from_length cur s :
  length (split_from cur s) = S (count_dots s).
Proof.
  revert cur. induction s as [|c s IH]; intros cur; cbn; [done|].
  destruct (Ascii.eqb c "."); cbn; by rewrite IH.
Qed.

Lemma depth_of_dots path :
  depth_of path
  = if String.eqb path "" then 0 else Z.of_nat (count_dots path) + 1.
Proof.
  unfold depth_of, split_dot. destruct (String.eqb path ""); [done|].
  rewrite split_from_length. lia.
Qed.

Lemma depth_of_root : depth_of "" = 0.
Proof. done. Qed.



Lemma join_prefix_root nm : join_prefix "" nm = nm.
Proof. done. Qed.



(** ** The propagation pass: shape of the result *)

Lemma visit_inv module st path layer st' x :
  visit module st (path, layer) = Ok (st', x) ->
  (x = container_record path layer ∧ st' = st)
  ∨ x = record_of path layer st'.
Proof.
  unfold visit. destruct (is_container layer); [intros [= <- <-]; by left|].
  destruct (spatial_params layer) as [[[p s] k]|].
  - destruct (update module p s k st); cbn; [|done]. intros [= <- <-]. by right.
  - intros [= <- <-]. by right.
Qed.

Lemma visit_depth module st path layer st' x :
  visit module st (path, layer) = Ok (st', x) ->
  depth x = depth_of path ∧ name x = label_of path ∧ type x = class_name layer.
Proof. intros H. by destruct (visit_inv _ _ _ _ _ _ H) as [[-> _]| ->]. Qed.

Lemma run_cons_inv module st e es data :
  run module st (e :: es) = Ok data ->
  ∃ st' x data', visit module st e = Ok (st', x)
                 ∧ run module st' es = Ok data' ∧ data = x :: data'.
Proof.
  cbn. destruct (visit module st e) as [[st' x]|]; cbn; [|done].
  destruct (run module st' es) as [data'|] eqn:Hr; cbn; [|done].
  intros [= <-]. by exists st', x, data'.
Qed.

Lemma run_depths module es :
  ∀ st data, run module st es = Ok data ->
  map depth data = map (λ e, depth_of e.1) es.
Proof.
  induction es as [|[path layer] es IH]; intros st data H.
  - by injection H as <-.
  - apply run_cons_inv in H as (st' & x & data' & Hv & Hr & ->).
    cbn. f_equal; [by apply visit_depth in Hv as [-> _]|by eapply IH].
Qed.

(** C4, as amended.  The depth stored in the record of a flattened layer is
    0 for the empty root path and otherwise the number of "." separators of
    the path plus one (the number of dot-separated segments). *)
Theorem C4_depth_counts_segments root input_shape data :
  propagate root input_shape = Ok data ->
  map depth data
  = map (λ e, if String.eqb e.1 "" then 0 else Z.of_nat (count_dots e.1) + 1)
      (iter_module root).
Proof.
  intros H. unfold propagate in H. rewrite (run_depths _ _ _ _ H).
  apply map_ext. intros e. apply depth_of_dots.
Qed.

Lemma C4_depth_counts_segments_witness :
  map depth [container_record "" one_conv; one_conv_record]
  = map (λ e, if String.eqb e.1 "" then 0 else Z.of_nat (count_dots e.1) + 1)
      (iter_module one_conv).
Proof. apply (C4_depth_counts_segments one_conv (5, 5)). reflexivity. Defined.

(** C4, as stated, fails: the path "0" of a direct child has no "."
    separator, yet its record has depth 1. *)
Lemma C4_counterexample :
  ∃ data, propagate one_conv (5, 5) = Ok data
    ∧ iter_module one_conv = [("", one_conv); ("0", conv 3 1 0)]
    ∧ map depth data = [0; 1]
    ∧ map (λ e, Z.of_nat (count_dots e.1)) (iter_module one_conv) = [0; 0]
    ∧ map depth data
      ≠ map (λ e, Z.of_nat (count_dots e.1)) (iter_module one_conv).
Proof. eexists. repeat split; [by vm_compute..|]. by vm_compute. Qed.

(** ** The depth collapse *)

Lemma last_cons {A} (a d : A) l : List.last (a :: l) d = List.last l a.
Proof.
  revert a d. induction l as [|b l IH]; intros a d; [done|].
  change (List.last (a :: b :: l) d) with (List.last (b :: l) d).
  by rewrite !IH.
Qed.


(** The scan stops at once on a record that is not deeper. *)
Lemma scan_stop y rest max_depth v :
  depth y <= max_depth -> scan (y :: rest) max_depth v = v.
Proof. intros H. cbn. by destruct (Z.ltb_spec max_depth (depth y)); [lia|]. Qed.


(** The three cases of one iteration of the loop at line 96. *)
Lemma collapse_boundary x rest max_depth :
  depth x = max_depth ->
  collapse (x :: rest) max_depth
  = replace_values x (scan rest max_depth (values x)) :: collapse rest max_depth.
Proof.
  intros H. cbn [collapse]. destruct (Z.eqb_spec (depth x) max_depth); [|done].
  rewrite depth_replace_values.
  by destruct (Z.leb_spec (depth x) max_depth); [|lia].
Qed.

Lemma collapse_keep x rest max_depth :
  depth x < max_depth ->
  collapse (x :: rest) max_depth = x :: collapse rest max_depth.
Proof.
  intros H. cbn [collapse]. destruct (Z.eqb_spec (depth x) max_depth); [lia|].
  by destruct (Z.leb_spec (depth x) max_depth); [|lia].
Qed.

Lemma collapse_drop x rest max_depth :
  max_depth < depth x ->
  collapse (x :: rest) max_depth = collapse rest max_depth.
Proof.
  intros H. cbn [collapse]. destruct (Z.eqb_spec (depth x) max_depth); [lia|].
  by destruct (Z.leb_spec (depth x) max_depth); [lia|].
Qed.

Lemma collapse_all_deeper rest max_depth :
  Forall (λ y, max_depth < depth y) rest -> collapse rest max_depth = [].
Proof.
  induction 1 as [|y rest Hy _ IH]; [done|]. by rewrite collapse_drop.
Qed.

Lemma collapse_all_shallow data max_depth :
  Forall (λ x, depth x <= max_depth) data -> collapse data max_depth = data.
Proof.
  induction 1 as [|x rest Hx Hrest IH]; [done|].
  destruct (Z.eq_dec (depth x) max_depth) as [He|He].
  - assert (Hs : scan rest max_depth (values x) = values x).
    { destruct Hrest as [|y rest' Hy _]; [done|]. by apply scan_stop. }
    by rewrite collapse_boundary, Hs, replace_values_values, IH.
  - rewrite collapse_keep by lia. by rewrite IH.
Qed.





(** C6. When [max_depth] is at least the depth of every record of the
    propagation pass, the collapse changes nothing: [get_rf_data] returns the
    full record list, every field and the order untouched. *)
Theorem C6_collapse_noop module input_shape max_depth data :
  propagate module input_shape = Ok data ->
  Forall (λ x, depth x <= max_depth) data ->
  get_rf_data module input_shape max_depth = Ok data.
Proof.
  intros Hp Hd. unfold get_rf_data. rewrite Hp. cbn.
  by rewrite collapse_all_shallow.
Qed.

Lemma C6_collapse_noop_witness :
  get_rf_data two_convs (8, 8) 1 = Ok two_convs_records.
Proof.
  apply C6_collapse_noop; [reflexivity|].
  repeat constructor; cbn; lia.
Defined.

(** ** Monotonicity of jump and receptive field *)

Lemma le_scalars_trans a b c : le_scalars a b -> le_scalars b c -> le_scalars a c.
Proof. intros [? ?] [? ?]. split; lia. Qed.

Section sublists.
Context {A B : Type}.

Lemma sublist_omap (f : A -> option B) l1 l2 :
  l1 `sublist_of` l2 -> omap f l1 `sublist_of` omap f l2.
Proof.
  induction 1 as [|a l1 l2 _ IH|a l1 l2 _ IH]; cbn.
  - constructor.
  - destruct (f a); [by constructor|done].
  - destruct (f a); [by constructor|done].
Qed.

Lemma StronglySorted_sublist (R : A -> A -> Prop) l1 l2 :
  l1 `sublist_of` l2 -> StronglySorted R l2 -> StronglySorted R l1.
Proof.
  induction 1 as [|a l1 l2 Hsub IH|a l1 l2 Hsub IH]; intros Hs.
  - constructor.
  - apply StronglySorted_cons in Hs as [Hall Hs].
    apply StronglySorted_cons. split; [|by apply IH].
    apply Forall_forall. intros b Hb.
    apply (proj1 (Forall_forall _ _) Hall). by apply (sublist_subseteq _ _ Hsub).
  - apply StronglySorted_cons in Hs as [_ Hs]. by apply IH.
Qed.
End sublists.

Lemma visit_monotone module st path layer st' x :
  valid_layer layer -> 0 <= j st ->
  visit module st (path, layer) = Ok (st', x) ->
  le_scalars (j st, r st) (j st', r st') ∧ 0 <= j st'
  ∧ (scalars_of (values x) = None
     ∨ scalars_of (values x) = Some (j st', r st')).
Proof.
  unfold visit, valid_layer, spatial_params, le_scalars. intros Hv Hj.
  destruct (is_container layer).
  { intros [= <- <-]. cbn. split; [lia|]. split; [done|by left]. }
  destruct (cls layer) as [|k s p|k s p|].
  - intros [= <- <-]. cbn. split; [lia|]. split; [done|by right].
  - destruct (update _ _ _ _ _) as [st1|] eqn:Hu; cbn; [|done].
    intros [= <- <-]. apply update_registers in Hu as (Hr & _ & _ & Hj').
    cbn. rewrite Hr, Hj'. split; [nia|]. split; [nia|by right].
  - destruct (update _ _ _ _ _) as [st1|] eqn:Hu; cbn; [|done].
    intros [= <- <-]. apply update_registers in Hu as (Hr & _ & _ & Hj').
    cbn. rewrite Hr, Hj'. split; [nia|]. split; [nia|by right].
  - intros [= <- <-]. cbn. split; [lia|]. split; [done|by right].
Qed.

(** Along the pass, the scalar pairs are sorted and bounded below by the
    registers the pass started from. *)
Lemma run_sorted module es :
  Forall (λ e, valid_layer e.2) es ->
  ∀ st data, 0 <= j st -> run module st es = Ok data ->
  StronglySorted le_scalars (omap scalars_of (map values data))
  ∧ Forall (le_scalars (j st, r st)) (omap scalars_of (map values data)).
Proof.
  induction 1 as [|[path layer] es Hv _ IH]; intros st data Hj H.
  - injection H as <-. split; constructor.
  - apply run_cons_inv in H as (st' & x & data' & Hx & Hr & ->).
    destruct (visit_monotone _ _ _ _ _ _ Hv Hj Hx) as (Hle & Hj' & Hsc).
    destruct (IH st' data' Hj' Hr) as [Hs Hb].
    assert (Hb' : Forall (le_scalars (j st, r st))
                    (omap scalars_of (map values data'))).
    { eapply Forall_impl; [exact Hb|]. intros b Hb0. by eapply le_scalars_trans. }
    cbn [map omap list_omap]. destruct Hsc as [-> | ->]; [done|].
    split; [by apply StronglySorted_cons|by constructor].
Qed.

(** The value tuples that survive the collapse are, in order, value tuples
    of the uncollapsed list. *)
Lemma collapse_values_sublist data max_depth :
  map values (collapse data max_depth) `sublist_of` map values data
  ∧ ∀ v, scan data max_depth v :: map values (collapse data max_depth)
         `sublist_of` v :: map values data.
Proof.
  induction data as [|x rest [IHc IHs]]; [split; [constructor|done]|].
  assert (Hc : map values (collapse (x :: rest) max_depth)
               `sublist_of` map values (x :: rest)).
  { destruct (Z.lt_trichotomy (depth x) max_depth) as [H|[H|H]].
    - rewrite collapse_keep by done. by constructor.
    - rewrite collapse_boundary by done. cbn [map].
      rewrite values_replace_values. apply IHs.
    - rewrite collapse_drop by done. by constructor. }
  split; [done|]. intros v. cbn [scan].
  destruct (Z.ltb_spec max_depth (depth x)).
  - rewrite collapse_drop by done. cbn [map]. constructor. apply IHs.
  - by constructor.
Qed.

Lemma sorted_adjacent recs :
  StronglySorted le_scalars (omap scalars_of (map values recs)) ->
  ∀ i x y,
    List.filter non_null recs !! i = Some x ->
    List.filter non_null recs !! S i = Some y ->
    ∃ jx rx jy ry,
      jump x = Some jx ∧ receptive_field x = Some rx
      ∧ jump y = Some jy ∧ receptive_field y = Some ry
      ∧ jx <= jy ∧ rx <= ry.
Proof.
  induction recs as [|a recs IH]; intros Hs i x y Hx Hy; [done|].
  cbn [List.filter map omap list_omap] in *.
  unfold non_null in Hx, Hy.
  destruct a as [d nm ty [sh|] [og|] [jv|] [rv|]]; cbn in *; eauto.
  apply StronglySorted_cons in Hs as [Hall Hs].
  destruct i as [|i]; [|by eauto].
  injection Hx as <-. cbn.
  assert (Hin : y ∈ List.filter non_null recs) by (by eapply list_elem_of_lookup_2).
  apply list_elem_of_In, filter_In in Hin as [Hin Hnn].
  unfold non_null in Hnn.
  destruct y as [d' nm' ty' [sh'|] [og'|] [jv'|] [rv'|]]; cbn in *; try done.
  assert (Hle : le_scalars (jv, rv) (jv', rv')).
  { apply (proj1 (Forall_forall _ _) Hall). apply list_elem_of_omap.
    eexists. split; [apply list_elem_of_fmap_2, list_elem_of_In, Hin|done]. }
  destruct Hle. by exists jv, rv, jv', rv'.
Qed.

(** C7. When every convolution/pool layer has stride >= 1 and kernel >= 1,
    jump and receptive field never decrease from one record to the next
    along the records of [get_rf_data] whose value fields are non-null. *)
Theorem C7_jump_rf_monotone module input_shape max_depth recs :
  Forall (λ e, valid_layer e.2) (iter_module module) ->
  get_rf_data module input_shape max_depth = Ok recs ->
  ∀ i x y,
    List.filter non_null recs !! i = Some x ->
    List.filter non_null recs !! S i = Some y ->
    ∃ jx rx jy ry,
      jump x = Some jx ∧ receptive_field x = Some rx
      ∧ jump y = Some jy ∧ receptive_field y = Some ry
      ∧ jx <= jy ∧ rx <= ry.
Proof.
  intros Hvalid Hrun. apply sorted_adjacent.
  unfold get_rf_data in Hrun.
  destruct (propagate module input_shape) as [data|] eqn:Hp; [|done].
  injection Hrun as <-.
  destruct (run_sorted module _ Hvalid (init_registers input_shape) data) as [Hs _];
    [done|exact Hp|].
  eapply StronglySorted_sublist; [|exact Hs].
  apply sublist_omap, collapse_values_sublist.
Qed.

Lemma C7_jump_rf_monotone_witness :
  ∃ jx rx jy ry,
    Some 2 = Some jx ∧ Some 3 = Some rx ∧ Some 4 = Some jy ∧ Some 7 = Some ry
    ∧ jx <= jy ∧ rx <= ry.
Proof.
  apply (C7_jump_rf_monotone two_convs (8, 8) default_max_depth
           two_convs_records ltac:(repeat constructor; cbn; lia) eq_refl 0%nat
           (mkLayerRFData 1 "├─ 0" "Conv2d" (Some (4, 4)) (Some (1 # 2, 1 # 2)%Q)
              (Some 2) (Some 3))
           (mkLayerRFData 1 "├─ 1" "Conv2d" (Some (2, 2)) (Some (1 # 2, 1 # 2)%Q)
              (Some 4) (Some 7)));
    reflexivity.
Defined.

(** ** Trees without convolution or max-pool *)

Lemma run_no_spatial module es :
  Forall (λ e, spatial_params e.2 = None) es ->
  ∀ st, ∃ data, run module st es = Ok data
    ∧ Forall (λ x, values x = null_values ∨ values x = register_values st) data.
Proof.
  induction 1 as [|[path layer] es Hn _ IH]; intros st.
  - exists []. by split.
  - destruct (IH st) as (data & Hr & Hall). cbn [run]. unfold visit.
    cbn in Hn. destruct (is_container layer).
    + cbn. rewrite Hr. cbn. eexists; split; [done|]. constructor; [by left|done].
    + rewrite Hn. cbn. rewrite Hr. cbn. eexists; split; [done|].
      constructor; [by right|done].
Qed.

Lemma collapse_values_elem x data max_depth :
  x ∈ collapse data max_depth -> ∃ y, y ∈ data ∧ values x = values y.
Proof.
  intros Hx.
  assert (Hv : values x ∈ map values (collapse data max_depth))
    by (by apply list_elem_of_fmap_2).
  apply (sublist_subseteq _ _ (proj1 (collapse_values_sublist data max_depth)))
    in Hv.
  apply list_elem_of_fmap in Hv as (y & Hy & Hin). by exists y.
Qed.

(** C8, as amended.  For a tree without any convolution or max-pool layer
    [get_rf_data] does not raise, and each returned record has its four value
    fields either all null (containers) or equal to the untouched initial
    registers: the input shape, origin (0.5, 0.5), jump 1, receptive field 1
    (leaf layers).  The result is the single all-null root record when the
    root is a [Sequential] without children and [max_depth >= 0]. *)
Theorem C8_no_spatial_layers module input_shape max_depth :
  no_spatial module ->
  ∃ recs, get_rf_data module input_shape max_depth = Ok recs
    ∧ Forall (λ x, values x = null_values
                   ∨ values x = (Some input_shape, Some (1 # 2, 1 # 2)%Q,
                                 Some 1, Some 1)) recs
    ∧ (is_sequential module = true -> _modules module = [] -> 0 <= max_depth ->
       recs = [container_record "" module]).
Proof.
  intros Hn. unfold get_rf_data, propagate.
  destruct (run_no_spatial module _ Hn (init_registers input_shape))
    as (data & Hr & Hall).
  exists (collapse data max_depth). rewrite Hr. split; [done|]. split.
  - apply Forall_forall. intros x Hx.
    apply collapse_values_elem in Hx as (y & Hy & ->).
    pose proof (proj1 (Forall_forall _ _) Hall y Hy) as Hv.
    by destruct input_shape.
  - intros Hseq Hleaf Hmd. destruct module as [cn c ms]. cbn in Hleaf. subst ms.
    unfold iter_module, is_sequential in *. cbn in Hr, Hseq.
    unfold is_container, is_sequential in Hr. cbn in Hr. rewrite Hseq in Hr.
    injection Hr as <-.
    apply collapse_all_shallow. by repeat constructor.
Qed.

Lemma C8_no_spatial_layers_witness :
  ∃ recs, get_rf_data (sequential []) (5, 5) default_max_depth = Ok recs
    ∧ recs = [container_record "" (sequential [])].
Proof.
  destruct (C8_no_spatial_layers (sequential []) (5, 5) default_max_depth)
    as (recs & Hrun & _ & Hone).
  - repeat constructor.
  - exists recs. split; [exact Hrun|].
    apply Hone; [reflexivity | reflexivity | unfold default_max_depth; lia].
Defined.

(** C8, as stated, fails: a [Sequential] holding one activation has no
    convolution or max-pool below it, yet [get_rf_data] returns two records
    and the second carries the initial registers; an activation alone as
    root gives one record, with non-null fields. *)
Lemma C8_counterexample :
  no_spatial relu_only
  ∧ get_rf_data relu_only (5, 5) default_max_depth
    = Ok [container_record "" relu_only;
          mkLayerRFData 1 "├─ 0" "ReLU" (Some (5, 5)) (Some (1 # 2, 1 # 2)%Q)
            (Some 1) (Some 1)]
  ∧ (¬ ∃ x, get_rf_data relu_only (5, 5) default_max_depth = Ok [x]
            ∧ values x = null_values)
  ∧ no_spatial relu
  ∧ (¬ ∃ x, get_rf_data relu (5, 5) default_max_depth = Ok [x]
            ∧ values x = null_values).
Proof.
  split; [repeat constructor|]. split; [by vm_compute|].
  split; [intros (x & H & _); by vm_compute in H|].
  split; [repeat constructor|].
  intros (x & H & Hv). vm_compute in H. injection H as <-. by vm_compute in Hv.
Qed.

(** ** Per-axis parameters *)

Lemma symmetrize_spatial_params m :
  spatial_params (symmetrize m) = spatial_params m.
Proof. destruct m as [cn [|k s p|k s p|] ms]; done. Qed.

Lemma symmetrize_is_conv2d m : is_conv2d (symmetrize m) = is_conv2d m.
Proof. destruct m as [cn [|k s p|k s p|] ms]; done. Qed.

Lemma symmetrize_is_container m : is_container (symmetrize m) = is_container m.
Proof.
  destruct m as [cn c ms]. unfold is_container, is_sequential, is_custom_module, children.
  cbn. rewrite !length_map. by destruct c.
Qed.

Lemma symmetrize_update m p s k st :
  update (symmetrize m) p s k st = update m p s k st.
Proof. unfold update. by rewrite symmetrize_is_conv2d. Qed.

Lemma symmetrize_visit module st path layer :
  visit (symmetrize module) st (path, symmetrize layer)
  = visit module st (path, layer).
Proof.
  unfold visit.
  rewrite symmetrize_is_container, symmetrize_spatial_params.
  destruct (is_container layer); [by destruct layer|].
  destruct (spatial_params layer) as [[[p s] k]|]; [|by destruct layer].
  rewrite symmetrize_update. by destruct layer.
Qed.

Lemma symmetrize_named_modules m :
  ∀ prefix, named_modules prefix (symmetrize m)
            = map (λ e, (e.1, symmetrize e.2)) (named_modules prefix m).
Proof.
  induction m as [cn c ms IH] using Module_tree_ind. intros prefix.
  cbn. f_equal.
  induction ms as [|[nm m'] ms IHms]; [done|].
  inversion IH as [|? ? Hm' Hms]; subst. cbn in Hm' |- *.
  by rewrite map_app, Hm', IHms.
Qed.

Lemma symmetrize_run module es :
  ∀ st, run (symmetrize module) st (map (λ e, (e.1, symmetrize e.2)) es)
        = run module st es.
Proof.
  induction es as [|[path layer] es IH]; intros st; [done|].
  cbn [map run fst snd]. rewrite symmetrize_visit.
  destruct (visit module st (path, layer)) as [[st' x]|]; [|done].
  cbn. by rewrite IH.
Qed.

(** C9. Only the first axis of a per-axis kernel size, stride or padding is
    read: [get_rf_data] on a tree equals [get_rf_data] on the tree whose
    pairs are replaced by their first components, so a lopsided
    configuration is accepted and its second axis ignored.  A convolution
    with kernel (3,5), stride (2,1), padding (1,0) on (8,8) is treated as
    kernel 3, stride 2, padding 1. *)
Theorem C9_first_axis_only :
  (∀ module input_shape max_depth,
      get_rf_data (symmetrize module) input_shape max_depth
      = get_rf_data module input_shape max_depth)
  ∧ (∀ k0 k1 s0 s1 p0 p1,
        spatial_params (leaf "Conv2d" (Conv2d (Pair k0 k1) (Pair s0 s1) (Pair p0 p1)))
        = Some (p0, s0, k0)
        ∧ spatial_params (leaf "MaxPool2d" (MaxPool2d (Pair k0 k1) (Pair s0 s1) (Pair p0 p1)))
          = Some (p0, s0, k0))
  ∧ get_rf_data (sequential [("0", lopsided_conv)]) (8, 8) default_max_depth
    = Ok [container_record "" (sequential [("0", lopsided_conv)]);
          mkLayerRFData 1 "├─ 0" "Conv2d" (Some (4, 4)) (Some (1 # 2, 1 # 2)%Q)
            (Some 2) (Some 3)].
Proof.
  split; [|split; [done|by vm_compute]].
  intros module input_shape max_depth. unfold get_rf_data, propagate, iter_module.
  by rewrite symmetrize_named_modules, symmetrize_run.
Qed.

(** ** What the collapse reads *)





(** ** Further properties: one record per layer *)

Lemma run_fields module es :
  ∀ st data, run module st es = Ok data ->
  map (λ x, (depth x, name x, type x)) data
  = map (λ e, (depth_of e.1, label_of e.1, class_name e.2)) es
  ∧ map non_null data = map (λ e, negb (is_container e.2)) es.
Proof.
  induction es as [|[path layer] es IH]; intros st data H.
  - by injection H as <-.
  - apply run_cons_inv in H as (st' & x & data' & Hv & Hr & ->).
    destruct (IH _ _ Hr) as [IH1 IH2]. cbn [map]. rewrite IH1, IH2.
    pose proof (visit_depth _ _ _ _ _ _ Hv) as (-> & -> & ->).
    split; [done|]. f_equal. cbn [snd].
    unfold visit in Hv. destruct (is_container layer).
    + by injection Hv as <- <-.
    + destruct (spatial_params layer) as [[[p s] k]|].
      * destruct (update module p s k st); [|done]. by injection Hv as <- <-.
      * by injection Hv as <- <-.
Qed.

(** The pass emits one record per name of [get_layer_names], in the same
    order; the record's depth and label are computed from that name, its type
    is the layer's class name, and its value fields are null exactly when the
    layer is a [Sequential] or has children. *)
Theorem records_follow_layers module input_shape data :
  propagate module input_shape = Ok data ->
  length data = length (get_layer_names module)
  ∧ map depth data = map depth_of (get_layer_names module)
  ∧ map name data = map label_of (get_layer_names module)
  ∧ map type data = map (λ e, class_name e.2) (iter_module module)
  ∧ map non_null data = map (λ e, negb (is_container e.2)) (iter_module module).
Proof.
  intros H. unfold propagate in H. destruct (run_fields _ _ _ _ H) as [Hf Hn].
  unfold get_layer_names. rewrite !map_map. repeat split.
  - rewrite length_map.
    rewrite <- (length_map (λ x, (depth x, name x, type x)) data), Hf.
    by rewrite length_map.
  - apply (f_equal (map (λ t, t.1.1))) in Hf. by rewrite !map_map in Hf.
  - apply (f_equal (map (λ t, t.1.2))) in Hf. by rewrite !map_map in Hf.
  - apply (f_equal (map (λ t, t.2))) in Hf. by rewrite !map_map in Hf.
  - done.
Qed.

Lemma records_follow_layers_witness :
  length two_convs_records = length (get_layer_names two_convs)
  ∧ map depth two_convs_records = map depth_of (get_layer_names two_convs)
  ∧ map name two_convs_records = map label_of (get_layer_names two_convs)
  ∧ map type two_convs_records = map (λ e, class_name e.2) (iter_module two_convs)
  ∧ map non_null two_convs_records
    = map (λ e, negb (is_container e.2)) (iter_module two_convs).
Proof. apply (records_follow_layers two_convs (8, 8)). reflexivity. Defined.

(** ** Further properties: depth is the nesting level *)

Lemma count_dots_app a b :
  count_dots (a ++ b) = (count_dots a + count_dots b)%nat.
Proof.
  induction a as [|c a IH]; [done|].
  change (count_dots (String c a ++ b)) with
    ((if Ascii.eqb c "." then 1 else 0) + count_dots (a ++ b))%nat.
  rewrite IH. cbn [count_dots]. lia.
Qed.

Lemma string_app_nonempty_r a b : b ≠ "" -> (a ++ b)%string ≠ "".
Proof. destruct a; [done|]. by cbn. Qed.

Lemma prefix_level_depth prefix lvl :
  prefix_level prefix lvl -> depth_of prefix = Z.of_nat lvl.
Proof.
  rewrite depth_of_dots. intros [[-> ->]|[Hne ->]]; [done|].
  destruct (String.eqb_spec prefix ""); [done|lia].
Qed.

Lemma prefix_level_child prefix lvl nm :
  prefix_level prefix lvl -> valid_name nm ->
  prefix_level (join_prefix prefix nm) (S lvl).
Proof.
  intros Hp [Hne Hdots]. right.
  destruct Hp as [[-> ->]|[Hp ->]].
  - by rewrite join_prefix_root, Hdots.
  - unfold join_prefix. destruct (String.eqb_spec prefix ""); [done|]. split.
    + by destruct prefix.
    + rewrite !count_dots_app, Hdots. cbn. lia.
Qed.

Lemma named_modules_levels m :
  ∀ prefix lvl, valid_names m -> prefix_level prefix lvl ->
  map (λ e, depth_of e.1) (named_modules prefix m)
  = map Z.of_nat (levels lvl m).
Proof.
  induction m as [cn c ms IH] using Module_tree_ind. intros prefix lvl Hv Hp.
  cbn [named_modules levels map _modules fst]. f_equal; [by apply prefix_level_depth|].
  cbn in Hv. induction ms as [|[nm m'] ms IHms]; [done|].
  inversion IH as [|? ? Hm' Hms]; subst. destruct Hv as (Hnm & Hvm & Hvs).
  rewrite !map_app. f_equal; [|by apply IHms].
  apply Hm'; [done|]. by apply prefix_level_child.
Qed.

(** With names as torch's [add_module] accepts them, the depth stored in
    each record is the nesting level of its layer in the tree. *)
Theorem depth_is_nesting_level module input_shape data :
  valid_names module ->
  propagate module input_shape = Ok data ->
  map depth data = map Z.of_nat (levels 0 module).
Proof.
  intros Hv H. unfold propagate in H. rewrite (run_depths _ _ _ _ H).
  apply named_modules_levels; [done|by left].
Qed.

Lemma depth_is_nesting_level_witness :
  ∃ data, propagate nested_sample (8, 8) = Ok data
    ∧ map depth data = [0; 1; 2; 2; 1].
Proof.
  eexists. split; [reflexivity|].
  apply (depth_is_nesting_level nested_sample (8, 8)); [|reflexivity].
  cbn. unfold valid_name. repeat split; done.
Defined.

(** ** Further properties: closed forms of jump and receptive field *)

Lemma visit_step module st e st' x :
  visit module st e = Ok (st', x) ->
  j st' = j st * layer_stride e
  ∧ r st' = r st + (layer_kernel e - 1) * j st
  ∧ values x = if is_container e.2 then null_values else register_values st'.
Proof.
  destruct e as [path layer]. unfold visit, layer_stride, layer_kernel. cbn [snd].
  destruct (is_container layer).
  { intros [= <- <-]. cbn. repeat split; lia. }
  destruct (spatial_params layer) as [[[p s] k]|].
  - destruct (update module p s k st) as [st1|] eqn:Hu; cbn; [|done].
    intros [= <- <-]. by apply update_registers in Hu as (-> & _ & _ & ->).
  - intros [= <- <-]. cbn. repeat split; lia.
Qed.

Lemma sum_imap_scale {A} (c : Z) (g : nat -> A -> Z) l :
  foldr Z.add 0 (imap (λ i x, c * g i x) l) = c * foldr Z.add 0 (imap g l).
Proof.
  revert g. induction l as [|a l IH]; intros g; cbn; [lia|].
  change (foldr Z.add 0 (imap ((λ i x, c * g i x) ∘ S) l))
    with (foldr Z.add 0 (imap (λ i x, c * (g ∘ S) i x) l)).
  rewrite IH. lia.
Qed.

Lemma stride_product_cons e es :
  stride_product (e :: es) = layer_stride e * stride_product es.
Proof. done. Qed.

Lemma rf_sum_cons e es :
  rf_sum (e :: es) = (layer_kernel e - 1) + layer_stride e * rf_sum es.
Proof.
  unfold rf_sum. cbn [imap foldr take]. f_equal; [cbn; lia|].
  rewrite <- sum_imap_scale. f_equal. apply imap_ext. intros i x _.
  unfold compose. change (take (S i) (e :: es)) with (e :: take i es).
  rewrite stride_product_cons. ring.
Qed.

Lemma registers_after_closed module es :
  ∀ st st', registers_after module st es = Ok st' ->
  j st' = j st * stride_product es ∧ r st' = r st + j st * rf_sum es.
Proof.
  induction es as [|e es IH]; intros st st' H.
  - injection H as <-. cbn. lia.
  - cbn [registers_after] in H.
    destruct (visit module st e) as [[st1 x]|] eqn:Hv; [|done]. cbn in H.
    apply visit_step in Hv as (Hj & Hr & _).
    destruct (IH _ _ H) as [-> ->].
    rewrite stride_product_cons, rf_sum_cons, Hj, Hr. split; lia.
Qed.

(** The record at position [n] carries the registers reached after the
    first [n + 1] entries, unless its layer is a container. *)
Lemma run_lookup module es :
  ∀ st data n x e, run module st es = Ok data ->
  data !! n = Some x -> es !! n = Some e ->
  ∃ st', registers_after module st (take (S n) es) = Ok st'
    ∧ values x = if is_container e.2 then null_values else register_values st'.
Proof.
  induction es as [|e0 es IH]; intros st data n x e H Hx He; [done|].
  apply run_cons_inv in H as (st1 & x0 & data' & Hv & Hr & ->).
  cbn [take registers_after]. rewrite Hv. cbn.
  destruct n as [|n].
  - injection Hx as <-. injection He as <-. rewrite take_0. cbn.
    exists st1. split; [done|]. by apply visit_step in Hv as (_ & _ & ->).
  - by apply (IH st1 data' n x e).
Qed.

(** Every record with scalars carries as jump the product of the strides of
    the convolution and max-pool leaves met up to and including its layer,
    and as receptive field [1 + Σ_i (k_i - 1) * Π_{m < i} s_m] over the same
    layers. *)
Theorem jump_rf_closed_form module input_shape data n x :
  propagate module input_shape = Ok data ->
  data !! n = Some x ->
  non_null x = true ->
  jump x = Some (stride_product (take (S n) (iter_module module)))
  ∧ receptive_field x = Some (1 + rf_sum (take (S n) (iter_module module))).
Proof.
  intros Hp Hx Hnn. unfold propagate in Hp.
  destruct (iter_module module !! n) as [e|] eqn:He.
  - destruct (run_lookup _ _ _ _ _ _ _ Hp Hx He) as (st' & Hs & Hv).
    apply registers_after_closed in Hs as [Hj Hr]. cbn in Hj, Hr.
    unfold non_null in Hnn. rewrite Hv in Hnn.
    destruct (is_container e.2); [done|].
    injection Hv as _ _ -> ->. rewrite Hj, Hr. split; f_equal; lia.
  - exfalso. apply lookup_ge_None in He. apply lookup_lt_Some in Hx.
    destruct (run_fields _ _ _ _ Hp) as [Hf _].
    apply (f_equal length) in Hf. rewrite !length_map in Hf. lia.
Qed.

Lemma jump_rf_closed_form_witness :
  Some 4 = Some (stride_product (take 3 (iter_module two_convs)))
  ∧ Some 7 = Some (1 + rf_sum (take 3 (iter_module two_convs))).
Proof.
  apply (jump_rf_closed_form two_convs (8, 8) two_convs_records 2
           (mkLayerRFData 1 "├─ 1" "Conv2d" (Some (2, 2)) (Some (1 # 2, 1 # 2)%Q)
              (Some 4) (Some 7)));
    reflexivity.
Defined.

(** ** Further properties: the output size as integer division *)




(** ** Further properties: a convolution as root *)







(** ** Further properties: a zero stride *)






(** ** Further properties: what the collapse keeps *)

Lemma collapse_fields data max_depth :
  map (λ x, (depth x, name x, type x)) (collapse data max_depth)
  = map (λ x, (depth x, name x, type x))
      (List.filter (λ x, depth x <=? max_depth) data).
Proof.
  induction data as [|x rest IH]; [done|]. cbn [List.filter].
  destruct (Z.lt_trichotomy (depth x) max_depth) as [H|[H|H]].
  - rewrite collapse_keep by done.
    destruct (Z.leb_spec (depth x) max_depth); [|lia]. cbn [map]. by rewrite IH.
  - rewrite collapse_boundary by done.
    destruct (Z.leb_spec (depth x) max_depth); [|lia]. cbn [map]. rewrite IH.
    by destruct (scan rest max_depth (values x)) as [[[? ?] ?] ?].
  - rewrite collapse_drop by done.
    by destruct (Z.leb_spec (depth x) max_depth); [lia|].
Qed.

Lemma collapse_depth_bound data max_depth :
  Forall (λ x, depth x <= max_depth) (collapse data max_depth).
Proof.
  induction data as [|x rest IH]; [constructor|].
  destruct (Z.lt_trichotomy (depth x) max_depth) as [H|[H|H]].
  - rewrite collapse_keep by done. constructor; [lia|done].
  - rewrite collapse_boundary by done. constructor; [|done].
    rewrite depth_replace_values. lia.
  - by rewrite collapse_drop.
Qed.

Lemma collapse_strictly_shallow data max_depth :
  List.filter (λ x, depth x <? max_depth) (collapse data max_depth)
  = List.filter (λ x, depth x <? max_depth) data.
Proof.
  induction data as [|x rest IH]; [done|].
  destruct (Z.lt_trichotomy (depth x) max_depth) as [H|[H|H]].
  - rewrite collapse_keep by done. cbn [List.filter]. by rewrite IH.
  - rewrite collapse_boundary by done. cbn [List.filter].
    rewrite depth_replace_values, IH.
    by destruct (Z.ltb_spec (depth x) max_depth); [lia|].
  - rewrite collapse_drop by done. cbn [List.filter]. rewrite IH.
    by destruct (Z.ltb_spec (depth x) max_depth); [lia|].
Qed.

(** [get_rf_data] returns, in order, exactly the layers of depth at most
    [max_depth] (same depth, label and type as in the full list), none
    deeper, and the records strictly above [max_depth] reach the caller
    untouched. *)
Theorem collapse_keeps_shallow_layers module input_shape max_depth recs :
  get_rf_data module input_shape max_depth = Ok recs ->
  ∃ data, propagate module input_shape = Ok data
    ∧ map (λ x, (depth x, name x, type x)) recs
      = map (λ x, (depth x, name x, type x))
          (List.filter (λ x, depth x <=? max_depth) data)
    ∧ Forall (λ x, depth x <= max_depth) recs
    ∧ List.filter (λ x, depth x <? max_depth) recs
      = List.filter (λ x, depth x <? max_depth) data.
Proof.
  unfold get_rf_data. destruct (propagate module input_shape) as [data|]; [|done].
  intros [= <-]. exists data. split; [done|].
  split; [apply collapse_fields|].
  split; [apply collapse_depth_bound|apply collapse_strictly_shallow].
Qed.

Lemma collapse_keeps_shallow_layers_witness :
  ∃ recs, get_rf_data nested_sample (8, 8) 1 = Ok recs
    ∧ ∃ data, propagate nested_sample (8, 8) = Ok data
        ∧ map (λ x, (depth x, name x, type x)) recs
          = map (λ x, (depth x, name x, type x))
              (List.filter (λ x, depth x <=? 1) data)
        ∧ Forall (λ x, depth x <= 1) recs
        ∧ List.filter (λ x, depth x <? 1) recs
          = List.filter (λ x, depth x <? 1) data.
Proof.
  eexists. split; [reflexivity|].
  apply (collapse_keeps_shallow_layers nested_sample (8, 8) 1). reflexivity.
Defined.

(** Collapsing an already collapsed list again, at the same or a larger
    depth, changes nothing. *)
Theorem collapse_absorbs data d1 d2 :
  d1 <= d2 -> collapse (collapse data d1) d2 = collapse data d1.
Proof.
  intros H. apply collapse_all_shallow.
  eapply Forall_impl; [apply collapse_depth_bound|]. cbn. intros x Hx. lia.
Qed.

Lemma collapse_absorbs_witness :
  collapse (collapse two_convs_records 0) 1 = collapse two_convs_records 0.
Proof. apply collapse_absorbs. lia. Defined.

Lemma run_depth_nonneg module es :
  ∀ st data, run module st es = Ok data -> Forall (λ x, 0 <= depth x) data.
Proof.
  intros st data H. apply run_depths in H. apply Forall_forall. intros x Hx.
  assert (Hin : depth x ∈ map depth data) by (by apply list_elem_of_fmap_2).
  rewrite H in Hin. apply list_elem_of_fmap in Hin as (e & -> & _).
  rewrite depth_of_dots. destruct (String.eqb e.1 ""); lia.
Qed.

(** With a negative [max_depth] every record is dropped: the result is the
    empty list whenever the propagation pass completes, and the exception of
    the pass otherwise. *)
Theorem negative_max_depth_drops_all module input_shape max_depth :
  max_depth < 0 ->
  get_rf_data module input_shape max_depth
  = match propagate module input_shape with
    | Ok _ => Ok []
    | Raise e => Raise e
    end.
Proof.
  intros Hneg. unfold get_rf_data.
  destruct (propagate module input_shape) as [data|] eqn:Hp; [|done]. cbn.
  f_equal. apply collapse_all_deeper.
  eapply Forall_impl; [by eapply run_depth_nonneg|]. cbn. intros x Hx. lia.
Qed.

Lemma negative_max_depth_drops_all_witness :
  get_rf_data two_convs (8, 8) (-1) = Ok [].
Proof.
  apply (negative_max_depth_drops_all two_convs (8, 8) (-1)). lia.
Defined.

(** ** Further properties: invariants of the returned records *)

Lemma visit_symmetric module st e st' x :
  visit module st e = Ok (st', x) ->
  ox st = oy st -> ox st' = oy st' ∧ (nx st = ny st -> nx st' = ny st').
Proof.
  destruct e as [path layer]. unfold visit.
  destruct (is_container layer); [by intros [= <- <-]|].
  destruct (spatial_params layer) as [[[p s] k]|]; [|by intros [= <- <-]].
  destruct (update module p s k st) as [st1|] eqn:Hu; cbn; [|done].
  intros [= <- <-] Ho. pose proof (update_registers _ _ _ _ _ _ Hu) as (_ & Hx & Hy & _).
  split; [by rewrite Hx, Hy, Ho|]. intros Hn.
  unfold update, out_dim in Hu. rewrite Hn in Hu.
  destruct (s =? 0); [done|]. cbn in Hu.
  destruct (is_conv2d module); cbn in Hu.
  - destruct (_ && _); [|done]. by injection Hu as <-.
  - by injection Hu as <-.
Qed.

Lemma run_symmetric module es :
  ∀ st data, run module st es = Ok data -> ox st = oy st ->
  Forall (λ x, values x = null_values
               ∨ ∃ n o jv rv, values x = (Some n, Some (o, o), Some jv, Some rv)
                   ∧ (nx st = ny st -> n.1 = n.2)) data.
Proof.
  induction es as [|e es IH]; intros st data H Ho.
  - injection H as <-. constructor.
  - apply run_cons_inv in H as (st' & x & data' & Hv & Hr & ->).
    destruct (visit_symmetric _ _ _ _ _ Hv Ho) as [Ho' Hn'].
    constructor.
    + apply visit_step in Hv as (_ & _ & ->).
      destruct (is_container e.2); [by left|right].
      exists (nx st', ny st'), (ox st'), (j st'), (r st').
      unfold register_values. by rewrite <- Ho'.
    + eapply Forall_impl; [by apply (IH st' data')|]. cbn.
      intros y [Hy|(n & o & jv & rv & Hy & Hsq)]; [by left|right].
      exists n, o, jv, rv. split; [done|]. intros Hn. by apply Hsq, Hn'.
Qed.

(** In every record returned by [get_rf_data] the four value fields are all
    null or all non-null; in the latter case the two coordinates of the
    origin are equal, and the output shape is square when the input is. *)
Theorem records_all_or_nothing module input_shape max_depth recs :
  get_rf_data module input_shape max_depth = Ok recs ->
  Forall (λ x, registers_ok input_shape (values x)) recs.
Proof.
  unfold get_rf_data.
  destruct (propagate module input_shape) as [data|] eqn:Hp; [|done].
  intros [= <-]. apply Forall_forall. intros x Hx.
  apply collapse_values_elem in Hx as (y & Hy & ->).
  unfold propagate in Hp.
  pose proof (run_symmetric _ _ _ _ Hp eq_refl) as Hall.
  apply (proj1 (Forall_forall _ _) Hall y Hy).
Qed.

Lemma records_all_or_nothing_witness :
  Forall (λ x, registers_ok (8, 8) (values x)) two_convs_records.
Proof.
  apply (records_all_or_nothing two_convs (8, 8) default_max_depth). reflexivity.
Defined.

(** With strides and kernels at least 1, every record with scalars has a
    jump and a receptive field of at least 1. *)
Theorem jump_rf_at_least_one module input_shape max_depth recs x :
  Forall (λ e, valid_layer e.2) (iter_module module) ->
  get_rf_data module input_shape max_depth = Ok recs ->
  x ∈ recs -> non_null x = true ->
  ∃ jv rv, jump x = Some jv ∧ receptive_field x = Some rv ∧ 1 <= jv ∧ 1 <= rv.
Proof.
  intros Hvalid Hrun Hx Hnn. unfold get_rf_data in Hrun.
  destruct (propagate module input_shape) as [data|] eqn:Hp; [|done].
  injection Hrun as <-.
  apply collapse_values_elem in Hx as (y & Hy & Hv).
  destruct (run_sorted module _ Hvalid (init_registers input_shape) data)
    as [_ Hb]; [done|exact Hp|].
  unfold non_null in Hnn. rewrite Hv in Hnn.
  assert (Hs : ∃ jv rv, scalars_of (values y) = Some (jv, rv)
                 ∧ jump x = Some jv ∧ receptive_field x = Some rv).
  { assert (jump x = (values x).1.2 ∧ receptive_field x = (values x).2) as [-> ->]
      by done.
    rewrite Hv. destruct (values y) as [[[[?|] [?|]] [jv|]] [rv|]]; try done.
    by exists jv, rv. }
  destruct Hs as (jv & rv & Hs & Hj & Hr). exists jv, rv.
  assert (Hin : (jv, rv) ∈ omap scalars_of (map values data)).
  { apply list_elem_of_omap. exists (values y). split; [|done].
    by apply list_elem_of_fmap_2. }
  destruct (proj1 (Forall_forall _ _) Hb _ Hin) as [H1 H2]. cbn in H1, H2.
  done.
Qed.

Lemma jump_rf_at_least_one_witness :
  ∃ jv rv, Some 1 = Some jv ∧ Some 3 = Some rv ∧ 1 <= jv ∧ 1 <= rv.
Proof.
  apply (jump_rf_at_least_one one_conv (5, 5) default_max_depth
           [container_record "" one_conv; one_conv_record] one_conv_record).
  - repeat constructor; cbn; lia.
  - reflexivity.
  - apply list_elem_of_further, list_elem_of_here.
  - reflexivity.
Defined.

(** ** Further properties: labels *)

Lemma string_app_assoc (a b c : string) : ((a ++ b) ++ c = a ++ (b ++ c))%string.
Proof.
  induction a as [|x a IH]; [done|].
  change (String x ((a ++ b) ++ c) = String x (a ++ (b ++ c)))%string.
  by rewrite IH.
Qed.

Lemma split_from_dotfree nm :
  count_dots nm = 0%nat -> ∀ cur, split_from cur nm = [(cur ++ nm)%string].
Proof.
  induction nm as [|c nm IH]; intros H cur.
  - cbn [split_from]. f_equal. induction cur as [|x cur IHc]; [done|].
    change (String x cur = String x (cur ++ ""))%string. by rewrite <- IHc.
  - cbn [count_dots] in H. cbn [split_from].
    destruct (Ascii.eqb c "."); [done|].
    rewrite IH by done. by rewrite string_app_assoc.
Qed.

Lemma split_from_last_segment a nm :
  count_dots nm = 0%nat ->
  ∀ cur d, List.last (split_from cur (a ++ String "." nm)) d = nm.
Proof.
  intros Hnm. induction a as [|c a IH]; intros cur d.
  - change (split_from cur ("" ++ String "." nm)) with (cur :: split_from "" nm).
    rewrite split_from_dotfree by done. reflexivity.
  - change (split_from cur (String c a ++ String "." nm))
      with (if Ascii.eqb c "." then cur :: split_from "" (a ++ String "." nm)
            else split_from (cur ++ String c "") (a ++ String "." nm)).
    destruct (Ascii.eqb c "."); [|by apply IH].
    rewrite last_cons. apply IH.
Qed.

(** The label of a direct child of the root is "├─ " followed by its name;
    the label of a deeper layer is one indent unit per level above it, then
    "└─ " and the layer's own name only, not its dotted path. *)
Theorem label_shows_own_name prefix nm :
  valid_name nm ->
  label_of (join_prefix prefix nm)
  = if String.eqb prefix "" then ("├─ " ++ nm)%string
    else (str_repeat "|    " (S (count_dots prefix)) ++ "└─ " ++ nm)%string.
Proof.
  intros [Hne Hdots]. unfold label_of. rewrite depth_of_dots.
  unfold join_prefix. destruct (String.eqb_spec prefix "") as [->|Hp].
  - change ("" ++ "" ++ nm)%string with nm.
    destruct (String.eqb_spec nm ""); [done|].
    rewrite Hdots. done.
  - assert (Hj : (prefix ++ "." ++ nm)%string ≠ "") by (by destruct prefix).
    destruct (String.eqb_spec (prefix ++ "." ++ nm) ""); [done|].
    rewrite !count_dots_app, Hdots.
    replace (Z.of_nat (count_dots prefix + (count_dots "." + 0)) + 1)
      with (Z.of_nat (count_dots prefix) + 2) by (cbn; lia).
    destruct (Z.eqb_spec (Z.of_nat (count_dots prefix) + 2) 0); [lia|].
    destruct (Z.eqb_spec (Z.of_nat (count_dots prefix) + 2) 1); [lia|].
    replace (Z.to_nat (Z.of_nat (count_dots prefix) + 2 - 1))
      with (S (count_dots prefix)) by lia.
    unfold split_dot.
    change ("." ++ nm)%string with (String "." nm).
    by rewrite split_from_last_segment.
Qed.

Lemma label_shows_own_name_witness :
  label_of (join_prefix "features.block" "conv1")
  = (str_repeat "|    " 2 ++ "└─ " ++ "conv1")%string.
Proof.
  apply (label_shows_own_name "features.block" "conv1"). by split.
Defined.

(** ** Further properties: the flattener *)

Lemma split_from_snoc a nm :
  count_dots nm = 0%nat ->
  ∀ cur, split_from cur (a ++ String "." nm) = (split_from cur a ++ [nm])%list.
Proof.
  intros Hnm. induction a as [|c a IH]; intros cur.
  - change (split_from cur ("" ++ String "." nm)) with (cur :: split_from "" nm).
    rewrite split_from_dotfree by done. reflexivity.
  - change (split_from cur (String c a ++ String "." nm))
      with (if Ascii.eqb c "." then cur :: split_from "" (a ++ String "." nm)
            else split_from (cur ++ String c "") (a ++ String "." nm)).
    cbn [split_from]. destruct (Ascii.eqb c "."); by rewrite IH.
Qed.

Lemma segments_child prefix nm :
  valid_name nm ->
  segments (join_prefix prefix nm) = (segments prefix ++ [nm])%list.
Proof.
  intros [Hne Hdots]. unfold segments, join_prefix.
  destruct (String.eqb_spec prefix "") as [->|Hp].
  - change ("" ++ "" ++ nm)%string with nm.
    destruct (String.eqb_spec nm ""); [done|].
    unfold split_dot. by rewrite split_from_dotfree.
  - assert (Hj : (prefix ++ "." ++ nm)%string ≠ "") by (by destruct prefix).
    destruct (String.eqb_spec (prefix ++ "." ++ nm) ""); [done|].
    unfold split_dot. change ("." ++ nm)%string with (String "." nm).
    by rewrite split_from_snoc.
Qed.

Lemma named_modules_routes m :
  ∀ prefix, valid_names m ->
  map (λ e, segments e.1) (named_modules prefix m) = routes (segments prefix) m.
Proof.
  induction m as [cn c ms IH] using Module_tree_ind. intros prefix Hv.
  cbn [named_modules routes map _modules fst]. f_equal.
  cbn in Hv. induction ms as [|[nm m'] ms IHms]; [done|].
  inversion IH as [|? ? Hm' Hms]; subst. destruct Hv as (Hnm & Hvm & Hvs).
  rewrite map_app. f_equal; [|by apply IHms].
  cbn in Hm'. rewrite Hm' by done. by rewrite segments_child.
Qed.

Lemma routes_extend m :
  ∀ pre rt, rt ∈ routes pre m -> pre `prefix_of` rt.
Proof.
  induction m as [cn c ms IH] using Module_tree_ind. intros pre rt.
  cbn [routes _modules]. intros Hin. apply elem_of_cons in Hin as [->|Hin]; [done|].
  induction ms as [|[nm m'] ms IHms]; [by apply elem_of_nil in Hin|].
  inversion IH as [|? ? Hm' Hms]; subst.
  apply elem_of_app in Hin as [Hin|Hin]; [|by apply IHms].
  cbn in Hm'. apply Hm' in Hin. etrans; [|exact Hin]. by apply prefix_app_r.
Qed.

Lemma routes_NoDup m :
  ∀ pre, distinct_siblings m -> NoDup (routes pre m).
Proof.
  induction m as [cn c ms IH] using Module_tree_ind. intros pre [Hnd Hds].
  cbn [routes _modules] in *. apply NoDup_cons. split.
  - intros Hin. clear IH Hnd Hds.
    induction ms as [|[nm m'] ms IHms]; [by apply elem_of_nil in Hin|].
    apply elem_of_app in Hin as [Hin|Hin]; [|by apply IHms].
    apply routes_extend in Hin as [k Hk].
    apply (f_equal length) in Hk. rewrite !length_app in Hk. cbn in Hk. lia.
  - induction ms as [|[nm m'] ms IHms]; [constructor|].
    inversion IH as [|? ? Hm' Hms]; subst.
    cbn [map fst] in Hnd. apply NoDup_cons in Hnd as [Hnm Hnd].
    destruct Hds as [Hd' Hds]. apply NoDup_app. split; [by apply Hm'|].
    split; [|by apply IHms].
    intros rt Hin1 Hin2. apply routes_extend in Hin1 as [k1 Hk1].
    clear IHms Hms Hm' Hd' Hds Hnd IH.
    induction ms as [|[nm2 m2] ms IHms]; [by apply elem_of_nil in Hin2|].
    apply elem_of_app in Hin2 as [Hin2|Hin2].
    + apply routes_extend in Hin2 as [k2 Hk2]. rewrite Hk1 in Hk2.
      rewrite <- !(assoc_L (++)) in Hk2. apply app_inv_head in Hk2.
      injection Hk2 as Hk2 _. apply Hnm. cbn. rewrite Hk2. apply list_elem_of_here.
    + apply IHms; [|done]. intros Hin. apply Hnm. cbn. by apply list_elem_of_further.
Qed.

Lemma named_modules_length m :
  ∀ prefix, length (named_modules prefix m) = size m.
Proof.
  induction m as [cn c ms IH] using Module_tree_ind. intros prefix.
  cbn [named_modules size _modules length]. f_equal.
  induction ms as [|[nm m'] ms IHms]; [done|].
  inversion IH as [|? ? Hm' Hms]; subst.
  rewrite length_app. cbn in Hm'. by rewrite Hm', IHms.
Qed.

(** [get_layer_names] lists every node of the tree once: as many names as
    nodes, the root's empty name first; with names as [add_module] accepts
    them and distinct names among siblings, no dotted path occurs twice. *)
Theorem layer_names_unique module :
  length (get_layer_names module) = size module
  ∧ head (get_layer_names module) = Some ""
  ∧ (valid_names module -> distinct_siblings module ->
     NoDup (get_layer_names module)).
Proof.
  unfold get_layer_names, iter_module. split; [|split].
  - rewrite length_map. apply named_modules_length.
  - by destruct module.
  - intros Hv Hd. apply (NoDup_fmap_1 segments).
    change (NoDup (map segments (map fst (named_modules "" module)))).
    rewrite map_map. rewrite (named_modules_routes module "" Hv).
    by apply routes_NoDup.
Qed.

Lemma layer_names_unique_witness :
  NoDup (get_layer_names nested_sample).
Proof.
  destruct (layer_names_unique nested_sample) as (_ & _ & H).
  apply H.
  - cbn. unfold valid_name. repeat split; done.
  - cbn. repeat split; compute_done.
Defined.

(** ** Further properties: collapsing in two steps *)

Lemma gentle_depths_tail a ds : gentle_depths (a :: ds) -> gentle_depths ds.
Proof. destruct ds as [|b ds]; [done|]. by intros [_ H]. Qed.

Lemma gentle_depths_app l1 d l2 :
  gentle_depths l1 -> gentle_depths (d :: l2) ->
  Forall (λ a, d <= a + 1) l1 ->
  gentle_depths (l1 ++ d :: l2).
Proof.
  intros H1 H2 Hall. induction l1 as [|a l1 IH]; [done|].
  apply Forall_cons in Hall as [Ha Hall].
  destruct l1 as [|b l1].
  - cbn. split; [done|]. exact H2.
  - destruct H1 as [Hab H1]. split; [done|]. by apply IH.
Qed.

Lemma scan_head_shallow rest max_depth v :
  match rest with [] => True | y :: _ => depth y <= max_depth end ->
  scan rest max_depth v = v.
Proof. destruct rest as [|y rest]; [done|]. apply scan_stop. Qed.

(** The scan over a list collapsed at a larger depth sees the same last
    record as the scan over the full list. *)
Lemma scan_collapse rest d1 d2 :
  d2 < d1 -> gentle_depths (map depth rest) ->
  ∀ v, scan (collapse rest d1) d2 (scan rest d1 v) = scan rest d2 v.
Proof.
  intros Hd. induction rest as [|y rest IH]; intros Hg v; [done|].
  pose proof (gentle_depths_tail _ _ Hg) as Hg'.
  destruct (Z.lt_trichotomy (depth y) d1) as [H|[H|H]].
  - rewrite (scan_stop y rest d1 v) by lia. rewrite collapse_keep by done.
    cbn [scan]. destruct (Z.ltb_spec d2 (depth y)); [|done].
    rewrite <- (IH Hg' (values y)). f_equal. symmetry.
    apply scan_head_shallow. destruct rest as [|z rest]; [done|].
    destruct Hg as [Hz _]. lia.
  - rewrite (scan_stop y rest d1 v) by lia. rewrite collapse_boundary by done.
    cbn [scan]. rewrite depth_replace_values, values_replace_values.
    destruct (Z.ltb_spec d2 (depth y)); [|lia]. by apply IH.
  - rewrite collapse_drop by done. cbn [scan].
    destruct (Z.ltb_spec d1 (depth y)); [|lia].
    destruct (Z.ltb_spec d2 (depth y)); [|lia]. by apply IH.
Qed.

Lemma collapse_twice data d1 d2 :
  d2 <= d1 -> gentle_depths (map depth data) ->
  collapse (collapse data d1) d2 = collapse data d2.
Proof.
  intros Hd. destruct (Z.eq_dec d1 d2) as [->|Hne]; [intros _; apply collapse_all_shallow, collapse_depth_bound|].
  induction data as [|x rest IH]; intros Hg; [done|].
  pose proof (gentle_depths_tail _ _ Hg) as Hg'.
  destruct (Z.lt_trichotomy (depth x) d1) as [H|[H|H]].
  - rewrite collapse_keep by done.
    destruct (Z.lt_trichotomy (depth x) d2) as [H2|[H2|H2]].
    + rewrite !collapse_keep by done. by rewrite IH.
    + rewrite !collapse_boundary by done. rewrite IH by done. do 2 f_equal.
      rewrite <- (scan_collapse rest d1 d2) by (done || lia). f_equal. symmetry.
      apply scan_head_shallow. destruct rest as [|z rest]; [done|].
      destruct Hg as [Hz _]. lia.
    + rewrite !collapse_drop by done. by apply IH.
  - rewrite collapse_boundary by done.
    rewrite !collapse_drop by (rewrite ?depth_replace_values; lia). by apply IH.
  - rewrite !collapse_drop by lia. by apply IH.
Qed.

Lemma levels_gentle m :
  ∀ lvl, gentle_depths (map Z.of_nat (levels lvl m))
         ∧ Forall (λ a, lvl <= a)%nat (levels lvl m)
         ∧ head (levels lvl m) = Some lvl.
Proof.
  induction m as [cn c ms IH] using Module_tree_ind. intros lvl.
  cbn [levels _modules].
  set (over := (fix over (cs : list (string * Module)) : list nat :=
                  match cs with
                  | [] => []
                  | (_, c0) :: cs' => (levels (S lvl) c0 ++ over cs')%list
                  end)).
  assert (Hover : gentle_depths (map Z.of_nat (over ms))
                  ∧ Forall (λ a, S lvl <= a)%nat (over ms)
                  ∧ (over ms = [] ∨ head (over ms) = Some (S lvl))).
  { clear cn c. induction ms as [|[nm m'] ms IHms]; [by repeat split; auto|].
    inversion IH as [|? ? Hm' Hms]; subst.
    destruct (IHms Hms) as (Hg & Hall & Hhd). cbn in Hm'.
    destruct (Hm' (S lvl)) as (Hg1 & Hall1 & Hhd1).
    cbn [over]. fold over. split; [|split].
    - destruct Hhd as [->|Hhd]; [by rewrite app_nil_r|].
      destruct (over ms) as [|b l2] eqn:Ho; [done|]. injection Hhd as ->.
      rewrite map_app. cbn [map]. apply gentle_depths_app; [done..|].
      apply Forall_fmap. eapply Forall_impl; [exact Hall1|]. cbn. intros a Ha. lia.
    - by apply Forall_app.
    - right. destruct (levels (S lvl) m'); [done|]. done. }
  destruct Hover as (Hg & Hall & Hhd). split; [|split; [|done]].
  - destruct Hhd as [->|Hhd]; [done|].
    destruct (over ms) as [|b l2]; [done|]. injection Hhd as ->.
    cbn [map]. split; [lia|exact Hg].
  - constructor; [lia|]. eapply Forall_impl; [exact Hall|]. cbn. intros a Ha. lia.
Qed.

(** With names as [add_module] accepts them, the view at depth [d2] can be
    computed from any finer view: collapsing the result of
    [get_rf_data ... d1] to [d2 <= d1] gives the result of
    [get_rf_data ... d2]. *)
Theorem coarser_view_from_finer module input_shape d1 d2 recs :
  valid_names module ->
  d2 <= d1 ->
  get_rf_data module input_shape d1 = Ok recs ->
  get_rf_data module input_shape d2 = Ok (collapse recs d2).
Proof.
  intros Hv Hd. unfold get_rf_data.
  destruct (propagate module input_shape) as [data|] eqn:Hp; [|done].
  intros [= <-]. cbn. f_equal. symmetry. apply collapse_twice; [done|].
  unfold propagate in Hp. rewrite (run_depths _ _ _ _ Hp). unfold iter_module.
  rewrite (named_modules_levels module "" 0%nat Hv) by (by left).
  apply levels_gentle.
Qed.

Lemma coarser_view_from_finer_witness :
  ∃ recs, get_rf_data nested_sample (8, 8) 1 = Ok recs
    ∧ get_rf_data nested_sample (8, 8) 0 = Ok (collapse recs 0).
Proof.
  eexists. split; [reflexivity|].
  apply (coarser_view_from_finer nested_sample (8, 8) 1 0);
    [|lia|reflexivity].
  cbn. unfold valid_name. repeat split; done.
Defined.

(** ** Further properties: closed form of the origin *)





